(** * Chatbot flow builder: the editing handlers of [FlowBuilder.tsx]

    The component [FlowBuilder] owns three pieces of React state (the node
    list, the edge list and the selected node) and a handful of handlers
    built with [useCallback].  A handler reads the values captured by its
    closure at render time and then calls [toast] and the state setters.
    Here every handler is a function from the captured values to the list
    of effects it performs, in call order; [commit] applies the queued
    state updates, as React does before the next render. *)

From Stdlib Require Import Ascii.
From stdpp Require Import gmap strings list pretty.


(** ** Graph model (the [@xyflow/react] data the component stores) *)

(** A handle id as JavaScript sees it: an edge may lack the field
    ([undefined]), a connection carries [null] for an unnamed handle,
    and [===] tells all three apart. *)
Inductive Handle :=
| HUndefined
| HNull
| HId (h : string).

#[global] Instance Handle_eq_dec : EqDecision Handle.
Proof. solve_decision. Defined.

(** [position: { x, y }]; the coordinates are only carried around. *)
Record XYPosition := mkXY { pos_x : Z; pos_y : Z }.

#[global] Instance XYPosition_eq_dec : EqDecision XYPosition.
Proof. solve_decision. Defined.

Module Node.
(** [data] is a JavaScript object used as a string-keyed map. *)
Record t := mk {
  id : string;
  type : string;
  position : XYPosition;
  data : gmap string string
}.

#[global] Instance node_eq_dec : EqDecision t.
Proof. solve_decision. Defined.
End Node.

Module Edge.
Record t := mk {
  id : string;
  source : string;
  sourceHandle : Handle;
  target : string;
  targetHandle : Handle
}.

#[global] Instance edge_eq_dec : EqDecision t.
Proof. solve_decision. Defined.
End Edge.

Module Connection.
Record t := mk {
  source : string;
  sourceHandle : Handle;
  target : string;
  targetHandle : Handle
}.

#[global] Instance connection_eq_dec : EqDecision t.
Proof. solve_decision. Defined.
End Connection.

(** ** Effects of a handler *)

(** The argument of [toast({ title, description, variant })]; [variant]
    is [None] where the call leaves the field out. *)
Record Toast := mkToast {
  title : string;
  description : string;
  variant : option string
}.

#[global] Instance Toast_eq_dec : EqDecision Toast.
Proof. solve_decision. Defined.

Inductive Effect :=
| EToast (t : Toast)
| SetEdges (f : list Edge.t → list Edge.t)
| SetNodes (f : list Node.t → list Node.t)
| SetSelectedNode (f : option Node.t → option Node.t).

(** The component's state: [useNodesState], [useEdgesState] and
    [useState<Node | null>]. *)
Record FlowState := mkState {
  nodes : list Node.t;
  edges : list Edge.t;
  selectedNode : option Node.t
}.

Definition apply_effect (st : FlowState) (e : Effect) : FlowState :=
  match e with
  | EToast _ => st
  | SetEdges f => mkState (nodes st) (f (edges st)) (selectedNode st)
  | SetNodes f => mkState (f (nodes st)) (edges st) (selectedNode st)
  | SetSelectedNode f => mkState (nodes st) (edges st) (f (selectedNode st))
  end.

(** Functional updaters run in the order they were queued. *)
Definition commit (st : FlowState) (effs : list Effect) : FlowState :=
  foldl apply_effect st effs.

(** The notifications a handler run shows, in order. *)
Definition toasts (effs : list Effect) : list Toast :=
  omap (λ e, match e with EToast t => Some t | _ => None end) effs.

(** ** Initial state *)

Definition initialNodes : list Node.t :=
  [ Node.mk "1" "textNode" (mkXY 250 200)
      {[ "text" := "Welcome! Start building your chatbot flow.";
         "label" := "Welcome Message" ]} ].

Definition initialEdges : list Edge.t := [].

Definition initialState : FlowState := mkState initialNodes initialEdges None.

(** ** The toasts the handlers show *)

Definition connectionErrorToast : Toast :=
  mkToast "Connection Error"
    "Each source handle can only have one outgoing connection."
    (Some "destructive").

Definition flowSavedToast : Toast :=
  mkToast "Flow Saved"
    "Your chatbot flow has been saved successfully."
    None.

Definition validationErrorToast : Toast :=
  mkToast "Validation Error"
    "Cannot save flow: More than one node has empty target handles."
    (Some "destructive").

(** ** Handlers *)

Section Handlers.
(** [addEdge] is imported from [@xyflow/react]; the handlers are written
    against whatever it does. *)
Variable addEdge : Connection.t → list Edge.t → list Edge.t.

(** [onConnect]: [edges] is the list captured by the callback. *)
Definition onConnect (edges : list Edge.t) (params : Connection.t) : list Effect :=
  let existingEdge :=
    list_find (λ edge,
      Edge.source edge = Connection.source params ∧
      Edge.sourceHandle edge = Connection.sourceHandle params) edges in
  match existingEdge with
  | Some _ => [EToast connectionErrorToast]
  | None => [SetEdges (λ eds, addEdge params eds)]
  end.

(** [saveFlow]: [nodes] and [edges] are the lists captured by the
    callback. *)
Definition saveFlow (nodes : list Node.t) (edges : list Edge.t) : list Effect :=
  if decide (length nodes ≤ 1) then [EToast flowSavedToast]
  else
    let nodesWithoutTargets :=
      filter (λ node,
        ¬ Exists (λ edge, Edge.target edge = Node.id node) edges) nodes in
    if decide (1 < length nodesWithoutTargets)
    then [EToast validationErrorToast]
    else [EToast flowSavedToast].

(** [{ ...node, data: { ...node.data, ...newData } }]: the later spread
    wins, which is the left-biased union with [newData] on the left. *)
Definition mergeData (node : Node.t) (newData : gmap string string) : Node.t :=
  Node.mk (Node.id node) (Node.type node) (Node.position node)
    (newData ∪ Node.data node).

(** [updateNodeData]: [selectedNode] is the value captured by the
    callback. *)
Definition updateNodeData (selectedNode : option Node.t)
    (nodeId : string) (newData : gmap string string) : list Effect :=
  SetNodes (λ nds,
    (λ node,
      if decide (Node.id node = nodeId) then mergeData node newData else node)
    <$> nds)
  :: (if decide (Node.id <$> selectedNode = Some nodeId)
      then [SetSelectedNode (λ prev,
              match prev with
              | Some prev => Some (mergeData prev newData)
              | None => None
              end)]
      else []).

(** [addNode]: [nodes_length] is the captured [nodes.length] and [now]
    the value [Date.now()] returns during the call.  A template literal
    renders both integers in decimal. *)
Definition addNode (nodes_length : nat) (now : Z)
    (type : string) (position : XYPosition) : list Effect :=
  let newNode :=
    Node.mk (pretty (nodes_length + 1) +:+ "-" +:+ pretty now)
      type position
      {[ "text" := if decide (type = "textNode")
                   then "Click to edit this message..." else "";
         "label" := if decide (type = "textNode")
                    then "Message" else "Node" ]} in
  [SetNodes (λ nds, nds ++ [newNode])].

(** [onNodeClick] and [onPaneClick]. *)
Definition onNodeClick (node : Node.t) : list Effect :=
  [SetSelectedNode (λ _, Some node)].

Definition onPaneClick : list Effect :=
  [SetSelectedNode (λ _, None)].

(** Modelled from the spec: node removal goes through [onNodesChange]
    of [useNodesState], which lives in [@xyflow/react]; the spec only
    says that a node is destroyed on explicit delete.  A removal takes
    the nodes with the given ids out of the list and keeps the others
    in order. *)
Definition removeNodes (ids : list string) : list Effect :=
  [SetNodes (λ nds, filter (λ node, Node.id node ∉ ids) nds)].

(** ** One user gesture *)

Inductive Event :=
| Connect (params : Connection.t)
| NodeClick (node : Node.t)
| PaneClick
| UpdateNode (nodeId : string) (newData : gmap string string)
| AddNode (type : string) (position : XYPosition) (now : Z)
| RemoveNodes (ids : list string)
| Save.

(** The handler runs on the values of the last render.  A callback kept
    from an earlier render (the timer of the settings panel holds one)
    runs with the values of that render instead: for it [updateNodeData]
    is used directly, with the selection it captured. *)
Definition handle (st : FlowState) (ev : Event) : list Effect :=
  match ev with
  | Connect params => onConnect (edges st) params
  | NodeClick node => onNodeClick node
  | PaneClick => onPaneClick
  | UpdateNode nodeId newData => updateNodeData (selectedNode st) nodeId newData
  | AddNode type position now => addNode (length (nodes st)) now type position
  | RemoveNodes ids => removeNodes ids
  | Save => saveFlow (nodes st) (edges st)
  end.

(** Gestures are handled one at a time, with a render between two of
    them. *)
Definition step (st : FlowState) (ev : Event) : FlowState :=
  commit st (handle st ev).

Definition run (st : FlowState) (evs : list Event) : FlowState :=
  foldl step st evs.
End Handlers.

(** ** The library's [addEdge] *)

Module ReactFlow.
Section AddEdge.
(** The id given to a new edge; the spec only asks for it to be
    unique, so the choice is left open. *)
Variable getEdgeId : Connection.t → list Edge.t → string.

(** Modelled from the spec: [addEdge] belongs to [@xyflow/react] and
    is not part of this repository.  Section 4.1 of the spec: append
    the proposed edge (assigning it a unique id if absent) and return
    the new edge set. *)
Definition addEdge (edgeParams : Connection.t) (edges : list Edge.t)
    : list Edge.t :=
  edges ++
  [ Edge.mk (getEdgeId edgeParams edges)
      (Connection.source edgeParams) (Connection.sourceHandle edgeParams)
      (Connection.target edgeParams) (Connection.targetHandle edgeParams) ].
End AddEdge.
End ReactFlow.

(** ** Vocabulary of the specification *)

(** The number of nodes with zero incoming edges: no edge of the list has
    the node's id as its target. *)
Definition zeroIncomingCount (nodes : list Node.t) (edges : list Edge.t) : nat :=
  length (filter (λ n, Forall (λ e, Edge.target e ≠ Node.id n) edges) nodes).

(** An existing edge leaves the source handle the proposal names. *)
Definition sameSource (params : Connection.t) (e : Edge.t) : Prop :=
  Edge.source e = Connection.source params ∧
  Edge.sourceHandle e = Connection.sourceHandle params.

#[global] Instance sameSource_dec params e : Decision (sameSource params e).
Proof. unfold sameSource. apply _. Defined.

(** The source end of an edge. *)
Definition sourceEnd (e : Edge.t) : string * Handle :=
  (Edge.source e, Edge.sourceHandle e).

(** The edge a proposal turns into, under a given id. *)
Definition edgeOf (id : string) (params : Connection.t) : Edge.t :=
  Edge.mk id
    (Connection.source params) (Connection.sourceHandle params)
    (Connection.target params) (Connection.targetHandle params).

(** No two edges of the list, at different positions, leave the same
    source node through the same source handle. *)
Definition fanOutAtMostOne (edges : list Edge.t) : Prop :=
  ∀ i j e1 e2,
    edges !! i = Some e1 → edges !! j = Some e2 →
    Edge.source e1 = Edge.source e2 →
    Edge.sourceHandle e1 = Edge.sourceHandle e2 →
    i = j.

(** A string without the dash that separates the two halves of an id. *)
Fixpoint noDash (s : string) : Prop :=
  match s with
  | EmptyString => True
  | String c s' => c ≠ "-"%char ∧ noDash s'
  end.

(** The id [addNode] builds. *)
Definition newNodeId (nodes_length : nat) (now : Z) : string :=
  pretty (nodes_length + 1) +:+ "-" +:+ pretty now.

(** ** Timestamps read by a sequence of gestures *)

Definition timestamp (ev : Event) : option Z :=
  match ev with
  | AddNode _ _ now => Some now
  | _ => None
  end.

Definition timestamps (evs : list Event) : list Z := omap timestamp evs.

(** An id of the initial list, or one built by [addNode] from a timestamp
    in [T]. *)
Definition idFrom (T : list Z) (id : string) : Prop :=
  id = "1" ∨ ∃ (k : nat) (t : Z), t ∈ T ∧ id = newNodeId k t.

Definition idsOk (T : list Z) (st : FlowState) : Prop :=
  NoDup (Node.id <$> nodes st) ∧ Forall (idFrom T) (Node.id <$> nodes st).

(** ** Concrete graphs *)

Module Examples.
Definition edgeId : Connection.t → list Edge.t → string :=
  λ params _,
    "e-" +:+ Connection.source params +:+ "-" +:+ Connection.target params.

Definition addEdge := ReactFlow.addEdge edgeId.

Definition welcome : Node.t :=
  Node.mk "1" "textNode" (mkXY 250 200)
    {[ "text" := "Welcome! Start building your chatbot flow.";
       "label" := "Welcome Message" ]}.

Definition message (id : string) : Node.t :=
  Node.mk id "textNode" (mkXY 0 0)
    {[ "text" := "Click to edit this message..."; "label" := "Message" ]}.

Definition edge (source target : string) : Edge.t :=
  Edge.mk ("e-" +:+ source +:+ "-" +:+ target) source HNull target HNull.

(** Two nodes that point at each other. *)
Definition cycle : FlowState :=
  mkState [welcome; message "2-1700000000000"]
          [edge "1" "2-1700000000000"; edge "2-1700000000000" "1"]
          None.

(** Add two nodes, remove the first of them, and add a third while the
    clock shows what it showed for the second. *)
Definition repeatedClock : list Event :=
  [ AddNode "textNode" (mkXY 0 0) 1700000000000;
    AddNode "textNode" (mkXY 10 10) 1700000000500;
    RemoveNodes ["2-1700000000000"];
    AddNode "textNode" (mkXY 20 20) 1700000000500 ].
End Examples.

(** ** The statistics bar *)

Record FlowStats := mkFlowStats {
  nodeCount : nat;
  connectionCount : nat;
  isolatedNodes : nat
}.

(** [flowStats], the value of the [useMemo] over [nodes] and [edges]. *)
Definition flowStats (nodes : list Node.t) (edges : list Edge.t) : FlowStats :=
  mkFlowStats (length nodes) (length edges)
    (length
       (filter (λ node,
          ¬ Exists (λ edge,
              Edge.source edge = Node.id node ∨ Edge.target edge = Node.id node)
            edges) nodes)).

(** ** Drag and drop from the palette *)

(** The browser's drag data store with the two fields the handlers
    write.  [getData] answers the empty string for a format nothing was
    stored under. *)
Record DataTransfer := mkDataTransfer {
  dt_data : gmap string string;
  effectAllowed : string;
  dropEffect : string
}.

Definition setData (format data : string) (dt : DataTransfer) : DataTransfer :=
  mkDataTransfer (<[format := data]> (dt_data dt)) (effectAllowed dt) (dropEffect dt).

Definition getData (format : string) (dt : DataTransfer) : string :=
  default "" (dt_data dt !! format).

(** [onDragStart] of [NodesPanel.tsx]: the drag carries the node type. *)
Definition onDragStart (dataTransfer : DataTransfer) (nodeType : string)
    : DataTransfer :=
  let dataTransfer := setData "application/reactflow" nodeType dataTransfer in
  mkDataTransfer (dt_data dataTransfer) "move" (dropEffect dataTransfer).

(** [onDragOver] of [FlowBuilder.tsx]. *)
Definition onDragOver (dataTransfer : DataTransfer) : DataTransfer :=
  mkDataTransfer (dt_data dataTransfer) (effectAllowed dataTransfer) "move".

(** What [onDrop] reads from its event: the drag data, the pointer, and
    the corner of [event.currentTarget.getBoundingClientRect()].  Pixel
    coordinates are integers here, as in [XYPosition]. *)
Record DropEvent := mkDropEvent {
  dataTransfer : DataTransfer;
  clientX : Z;
  clientY : Z;
  bounds_left : Z;
  bounds_top : Z
}.

(** [onDrop]: an empty type ends the handler before anything is added;
    [nodes_length] and [now] are what the [addNode] it calls reads. *)
Definition onDrop (nodes_length : nat) (now : Z) (event : DropEvent)
    : list Effect :=
  let type := getData "application/reactflow" (dataTransfer event) in
  if decide (type = "") then []
  else
    let position :=
      mkXY (clientX event - bounds_left event)
           (clientY event - bounds_top event) in
    addNode nodes_length now type position.

(** ** The text node component ([TextNode]) *)

Module TextNode.
(** [useState(false)] and [useState(nodeData.text || '')]. *)
Record State := mkLocal { isEditing : bool; editText : string }.

(** [nodeData.text || '']: a missing or empty text gives the empty
    string. *)
Definition textOrEmpty (data : gmap string string) : string :=
  default "" (data !! "text").

(** Every handler gives the component's next local state and the effects
    on the flow it performs; [e.stopPropagation()] has no part in the
    state.

    Modelled from the spec: [handleSave] hands its updater to the
    [setNodes] of [useReactFlow], and how that reaches the node list is
    code of [@xyflow/react], not of this repository.  The spec has the
    Flow Canvas own the one authoritative node list (section 3) and a
    field change of a node dispatched to it (section 6), so the updater
    is applied to that list.  The library matches nodes by id on the way,
    which makes this the list it produces when the ids are distinct. *)
Definition handleDoubleClick (data : gmap string string) (s : State)
    : State * list Effect :=
  (mkLocal true (textOrEmpty data), []).

Definition handleSave (id : string) (s : State) : State * list Effect :=
  (mkLocal false (editText s),
   [SetNodes (λ nds,
      (λ node,
        if decide (Node.id node = id)
        then Node.mk (Node.id node) (Node.type node) (Node.position node)
               (<["text" := editText s]> (Node.data node))
        else node)
      <$> nds)]).

Definition handleCancel (data : gmap string string) (s : State)
    : State * list Effect :=
  (mkLocal false (textOrEmpty data), []).

(** The textarea's [onChange]. *)
Definition onChange (value : string) (s : State) : State * list Effect :=
  (mkLocal (isEditing s) value, []).

Record KeyboardEvent := mkKey { key : string; ctrlKey : bool }.

Definition handleKeyPress (id : string) (data : gmap string string)
    (e : KeyboardEvent) (s : State) : State * list Effect :=
  if decide (key e = "Enter" ∧ ctrlKey e = true) then handleSave id s
  else if decide (key e = "Escape") then handleCancel data s
  else (s, []).

(** The body of the node when it is not being edited: the text, cut
    after a hundred characters, or the hint when there is no text. *)
Definition bodyText (data : gmap string string) : string :=
  match data !! "text" with
  | Some text =>
      if decide (text = "") then "Double-click to edit message..."
      else if decide (100 < String.length text)
           then String.substring 0 100 text +:+ "..."
           else text
  | None => "Double-click to edit message..."
  end.

(** The header: [nodeData.label || 'Message']. *)
Definition headerLabel (data : gmap string string) : string :=
  match data !! "label" with
  | Some label => if decide (label = "") then "Message" else label
  | None => "Message"
  end.
End TextNode.

(** * Save validation *)

Lemma nodesWithoutTargets_count (nodes : list Node.t) (edges : list Edge.t) :
  length (filter (λ node,
            ¬ Exists (λ edge, Edge.target edge = Node.id node) edges) nodes)
  = zeroIncomingCount nodes edges.
Proof.
  unfold zeroIncomingCount. f_equal.
  apply list_filter_iff. intros n.
  rewrite Forall_Exists_neg. reflexivity.
Qed.

Lemma saveFlow_cases (nodes : list Node.t) (edges : list Edge.t) :
  saveFlow nodes edges =
    if decide (length nodes ≤ 1 ∨ zeroIncomingCount nodes edges ≤ 1)
    then [EToast flowSavedToast] else [EToast validationErrorToast].
Proof.
  unfold saveFlow. rewrite nodesWithoutTargets_count.
  repeat case_decide; try reflexivity; lia.
Qed.

(** C1: saving succeeds exactly when there is at most one node or at most
    one node has zero incoming edges, and it is rejected exactly when there
    is more than one node and more than one of them has zero incoming
    edges; nothing else about the edges matters. *)
Theorem saveFlow_ok_iff (nodes : list Node.t) (edges : list Edge.t) :
  (saveFlow nodes edges = [EToast flowSavedToast]
     ↔ length nodes ≤ 1 ∨ zeroIncomingCount nodes edges ≤ 1)
  ∧ (saveFlow nodes edges = [EToast validationErrorToast]
     ↔ 1 < length nodes ∧ 1 < zeroIncomingCount nodes edges).
Proof.
  rewrite saveFlow_cases. case_decide as Hok; split; split;
    try done; lia.
Qed.

(** The count of the specification, node by node: a node is counted when
    it is the target of no edge. *)
Lemma zeroIncomingCount_cons (n : Node.t) (nodes : list Node.t) (edges : list Edge.t) :
  zeroIncomingCount (n :: nodes) edges =
    (if decide (Node.id n ∈ Edge.target <$> edges) then 0 else 1)
    + zeroIncomingCount nodes edges.
Proof.
  unfold zeroIncomingCount. rewrite filter_cons.
  case_decide as Hall; case_decide as Hin; simpl; try lia.
  - exfalso. apply list_elem_of_fmap in Hin as (e & Heq & He).
    rewrite Forall_forall in Hall. by apply (Hall e He).
  - exfalso. apply Hall, Forall_forall. intros e He Heq.
    apply Hin, list_elem_of_fmap. by exists e.
Qed.

Lemma zeroIncomingCount_all_targets (nodes : list Node.t) (edges : list Edge.t) :
  (∀ n, n ∈ nodes → ∃ e, e ∈ edges ∧ Edge.target e = Node.id n) →
  zeroIncomingCount nodes edges = 0.
Proof.
  induction nodes as [|n nodes IH]; intros Hin; [done|].
  rewrite zeroIncomingCount_cons, IH.
  - case_decide as Hn; [done|]. exfalso. apply Hn.
    destruct (Hin n) as (e & He & Ht); [left|].
    apply list_elem_of_fmap. by exists e.
  - intros m Hm. apply Hin. by right.
Qed.

(** C10: a graph of several nodes in which every node has an incoming
    edge is saved, there need not be an entry node. *)
Theorem saveFlow_no_entry_node (nodes : list Node.t) (edges : list Edge.t) :
  1 < length nodes →
  (∀ n, n ∈ nodes → ∃ e, e ∈ edges ∧ Edge.target e = Node.id n) →
  zeroIncomingCount nodes edges = 0
  ∧ saveFlow nodes edges = [EToast flowSavedToast].
Proof.
  intros _ Hall.
  pose proof (zeroIncomingCount_all_targets nodes edges Hall) as H0.
  split; [done|].
  rewrite saveFlow_cases, H0. by case_decide; [|lia].
Qed.

(** C6: saving reads the node and edge lists and writes neither; a second
    save on the state the first one leaves behind performs the same
    effects and shows the same toast. *)
Theorem saveFlow_pure
    (addEdge : Connection.t → list Edge.t → list Edge.t) (st : FlowState) :
  let st' := step addEdge st Save in
  nodes st' = nodes st
  ∧ edges st' = edges st
  ∧ handle addEdge st' Save = handle addEdge st Save
  ∧ toasts (handle addEdge st' Save) = toasts (handle addEdge st Save).
Proof.
  assert (step addEdge st Save = st) as Hst.
  { unfold step, handle. rewrite saveFlow_cases. by case_decide. }
  simpl. by rewrite Hst.
Qed.

(** * Connections *)

Section Connections.
Variable addEdge : Connection.t → list Edge.t → list Edge.t.

Lemma onConnect_taken (edges : list Edge.t) (params : Connection.t) :
  Exists (sameSource params) edges →
  onConnect addEdge edges params = [EToast connectionErrorToast].
Proof.
  intros Hex. unfold onConnect.
  destruct (list_find _ edges) as [[i e]|] eqn:Hfind; [done|].
  exfalso. apply list_find_None in Hfind.
  apply Exists_exists in Hex as (e & He & Hsame).
  rewrite Forall_forall in Hfind. by apply (Hfind e He).
Qed.

Lemma onConnect_free (edges : list Edge.t) (params : Connection.t) :
  ¬ Exists (sameSource params) edges →
  onConnect addEdge edges params = [SetEdges (λ eds, addEdge params eds)].
Proof.
  intros Hex. unfold onConnect.
  destruct (list_find _ edges) as [[i e]|] eqn:Hfind; [|done].
  exfalso. apply list_find_Some in Hfind as (Hi & Hsame & _).
  apply Hex, Exists_exists. exists e. split; [|done].
  by eapply list_elem_of_lookup_2.
Qed.

Lemma onConnect_cases (edges : list Edge.t) (params : Connection.t) :
  onConnect addEdge edges params =
    if decide (Exists (sameSource params) edges)
    then [EToast connectionErrorToast]
    else [SetEdges (λ eds, addEdge params eds)].
Proof.
  case_decide; auto using onConnect_taken, onConnect_free.
Qed.

Lemma step_Connect (st : FlowState) (params : Connection.t) :
  step addEdge st (Connect params) =
    if decide (Exists (sameSource params) (edges st))
    then st
    else mkState (nodes st) (addEdge params (edges st)) (selectedNode st).
Proof.
  unfold step, handle. rewrite onConnect_cases.
  case_decide; [by destruct st|done].
Qed.
End Connections.

(** C4: a rejected connection changes nothing: the state after the call,
    its edge list included, is the state before it.  This holds whatever
    [addEdge] does, since the rejection path never reaches it. *)
Theorem onConnect_rejected_unchanged
    (addEdge : Connection.t → list Edge.t → list Edge.t)
    (st : FlowState) (params : Connection.t) :
  connectionErrorToast ∈ toasts (handle addEdge st (Connect params)) →
  edges (step addEdge st (Connect params)) = edges st
  ∧ step addEdge st (Connect params) = st.
Proof.
  rewrite step_Connect. simpl. rewrite onConnect_cases.
  case_decide; [done|]. simpl. by intros ?%elem_of_nil.
Qed.

(** C2: the proposal is rejected with the connection error exactly when
    an existing edge leaves the same source node through the same source
    handle; otherwise the committed edge list is the old one with the
    proposed edge appended. *)
Theorem onConnect_rejects_iff_source_taken
    (getEdgeId : Connection.t → list Edge.t → string)
    (st : FlowState) (params : Connection.t) :
  let addEdge := ReactFlow.addEdge getEdgeId in
  (handle addEdge st (Connect params) = [EToast connectionErrorToast]
     ↔ ∃ e, e ∈ edges st ∧
            Edge.source e = Connection.source params ∧
            Edge.sourceHandle e = Connection.sourceHandle params)
  ∧ (handle addEdge st (Connect params) ≠ [EToast connectionErrorToast] →
     edges (step addEdge st (Connect params))
       = edges st ++ [edgeOf (getEdgeId params (edges st)) params]).
Proof.
  simpl. rewrite step_Connect, onConnect_cases.
  case_decide as Hex; (split; [split|]); try done.
  - intros _. apply Exists_exists in Hex as (e & He & Hs & Hh). eauto.
  - intros (e & He & Hs & Hh). exfalso. apply Hex, Exists_exists.
    exists e. by repeat split.
Qed.

(** ** Source-handle fan-out *)

Lemma fanOutAtMostOne_NoDup (edges : list Edge.t) :
  fanOutAtMostOne edges ↔ NoDup (sourceEnd <$> edges).
Proof.
  rewrite NoDup_alt. unfold fanOutAtMostOne, sourceEnd. split.
  - intros Hfan i j [s h] Hi Hj.
    rewrite list_lookup_fmap in Hi, Hj.
    destruct (edges !! i) as [e1|] eqn:H1; [|done].
    destruct (edges !! j) as [e2|] eqn:H2; [|done].
    simplify_eq/=. eauto.
  - intros Hnd i j e1 e2 H1 H2 Hs Hh.
    apply (Hnd i j (Edge.source e1, Edge.sourceHandle e1));
      rewrite list_lookup_fmap.
    + by rewrite H1.
    + rewrite H2. simpl. by rewrite Hs, Hh.
Qed.

Section FanOut.
Variable getEdgeId : Connection.t → list Edge.t → string.
Let addEdge := ReactFlow.addEdge getEdgeId.

Lemma sourceEnd_free (edges : list Edge.t) (params : Connection.t) :
  ¬ Exists (sameSource params) edges →
  (Connection.source params, Connection.sourceHandle params)
    ∉ sourceEnd <$> edges.
Proof.
  intros Hfree (e & Heq & He)%list_elem_of_fmap. apply Hfree.
  apply Exists_exists. exists e. split; [done|].
  unfold sourceEnd in Heq. by simplify_eq.
Qed.

Lemma step_fanOut (st : FlowState) (ev : Event) :
  NoDup (sourceEnd <$> edges st) →
  NoDup (sourceEnd <$> edges (step addEdge st ev)).
Proof.
  intros Hnd. destruct ev as [params| | | | | |];
    [rewrite step_Connect|unfold step, handle..].
  - case_decide as Hex; [done|]. simpl.
    unfold addEdge, ReactFlow.addEdge. rewrite fmap_app. simpl.
    apply NoDup_app. split; [done|]. split.
    + intros k Hk ->%list_elem_of_singleton.
      by apply (sourceEnd_free _ _ Hex).
    + apply NoDup_singleton.
  - done.
  - done.
  - unfold updateNodeData. by case_decide.
  - done.
  - done.
  - rewrite saveFlow_cases. by case_decide.
Qed.

Lemma run_fanOut (evs : list Event) (st : FlowState) :
  NoDup (sourceEnd <$> edges st) →
  NoDup (sourceEnd <$> edges (run addEdge st evs)).
Proof.
  revert st. induction evs as [|ev evs IH]; intros st Hnd; [done|].
  simpl. by apply IH, step_fanOut.
Qed.
End FanOut.

(** C3: whatever connections are proposed, one after the other, starting
    from the initial state with its empty edge list, the edge list never
    holds two edges with the same source node and source handle. *)
Theorem proposeConnection_fanOut_invariant
    (getEdgeId : Connection.t → list Edge.t → string)
    (proposals : list Connection.t) :
  fanOutAtMostOne
    (edges (run (ReactFlow.addEdge getEdgeId) initialState
              (Connect <$> proposals))).
Proof.
  apply fanOutAtMostOne_NoDup, run_fanOut. simpl. apply NoDup_nil_2.
Qed.

(** C5: a proposal whose source node is its target node is accepted like
    any other, provided the source handle is still free: no error is
    shown and the loop is appended to the edge list. *)
Theorem onConnect_accepts_self_loop
    (getEdgeId : Connection.t → list Edge.t → string)
    (st : FlowState) (params : Connection.t) :
  let addEdge := ReactFlow.addEdge getEdgeId in
  Connection.source params = Connection.target params →
  (∀ e, e ∈ edges st →
        ¬ (Edge.source e = Connection.source params ∧
           Edge.sourceHandle e = Connection.sourceHandle params)) →
  toasts (handle addEdge st (Connect params)) = []
  ∧ edges (step addEdge st (Connect params))
      = edges st ++ [edgeOf (getEdgeId params (edges st)) params]
  ∧ Edge.source (edgeOf (getEdgeId params (edges st)) params)
      = Edge.target (edgeOf (getEdgeId params (edges st)) params).
Proof.
  intros addEdge Hloop Hfree.
  assert (¬ Exists (sameSource params) (edges st)) as Hex.
  { intros (e & He & Hs)%Exists_exists. by apply (Hfree e He). }
  rewrite step_Connect. simpl. rewrite onConnect_cases.
  by case_decide.
Qed.

(** ** Notifications *)

(** The claim C9 as written fails: the first connection proposed in the
    initial state is accepted and no toast is shown for it. *)
Lemma onConnect_accepted_silent :
  edges (step Examples.addEdge initialState
           (Connect (Connection.mk "1" HNull "1" HNull)))
    = [Examples.edge "1" "1"]
  ∧ length (toasts (handle Examples.addEdge initialState
                      (Connect (Connection.mk "1" HNull "1" HNull)))) ≠ 1.
Proof. split; [reflexivity|]. simpl. lia. Qed.

(** C9, amended: every save shows exactly one toast, the success toast
    or the validation error; a rejected connection shows exactly one
    toast, the connection error; an accepted connection shows none. *)
Theorem toasts_per_call
    (addEdge : Connection.t → list Edge.t → list Edge.t) (st : FlowState) :
  (toasts (handle addEdge st Save) =
     [if decide (length (nodes st) ≤ 1 ∨ zeroIncomingCount (nodes st) (edges st) ≤ 1)
      then flowSavedToast else validationErrorToast])
  ∧ ∀ params,
      toasts (handle addEdge st (Connect params)) =
        if decide (Exists (sameSource params) (edges st))
        then [connectionErrorToast] else [].
Proof.
  split.
  - simpl. rewrite saveFlow_cases. by case_decide.
  - intros params. simpl. rewrite onConnect_cases. by case_decide.
Qed.

(** * Editing a node's data *)

Lemma mergeData_lookup (node : Node.t) (newData : gmap string string) (k : string) :
  Node.data (mergeData node newData) !! k =
    match newData !! k with
    | Some v => Some v
    | None => Node.data node !! k
    end.
Proof.
  unfold mergeData. simpl. rewrite lookup_union.
  by destruct (newData !! k), (Node.data node !! k).
Qed.

Lemma nodes_step_UpdateNode
    (addEdge : Connection.t → list Edge.t → list Edge.t)
    (st : FlowState) (nodeId : string) (newData : gmap string string) :
  nodes (step addEdge st (UpdateNode nodeId newData)) =
    (λ node, if decide (Node.id node = nodeId)
             then mergeData node newData else node) <$> nodes st.
Proof. unfold step, handle, updateNodeData. by case_decide. Qed.

Lemma edges_step_UpdateNode
    (addEdge : Connection.t → list Edge.t → list Edge.t)
    (st : FlowState) (nodeId : string) (newData : gmap string string) :
  edges (step addEdge st (UpdateNode nodeId newData)) = edges st.
Proof. unfold step, handle, updateNodeData. by case_decide. Qed.

(** C7: after [updateNodeData nodeId newData] the node list has the same
    length; at every position the node keeps its id, type and position; a
    node whose id is [nodeId] gets the merged data, in which a key of
    [newData] has the value [newData] gives it and any other key keeps
    its old value; every other node is the node it was; and when no node
    has the id [nodeId] the list is the list it was. *)
Theorem updateNodeData_frame
    (addEdge : Connection.t → list Edge.t → list Edge.t)
    (st : FlowState) (nodeId : string) (newData : gmap string string) :
  let nds' := nodes (step addEdge st (UpdateNode nodeId newData)) in
  length nds' = length (nodes st)
  ∧ (∀ i node, nodes st !! i = Some node →
       ∃ node', nds' !! i = Some node'
         ∧ Node.id node' = Node.id node
         ∧ Node.type node' = Node.type node
         ∧ Node.position node' = Node.position node
         ∧ (Node.id node = nodeId →
              ∀ k, Node.data node' !! k =
                     match newData !! k with
                     | Some v => Some v
                     | None => Node.data node !! k
                     end)
         ∧ (Node.id node ≠ nodeId → node' = node))
  ∧ ((∀ node, node ∈ nodes st → Node.id node ≠ nodeId) → nds' = nodes st).
Proof.
  simpl. rewrite nodes_step_UpdateNode. split; [|split].
  - apply length_fmap.
  - intros i node Hi. rewrite list_lookup_fmap, Hi. simpl.
    case_decide as Hid.
    + exists (mergeData node newData). repeat split; try done.
      intros _ k. apply mergeData_lookup.
    + by exists node.
  - intros Hnone. rewrite <-(list_fmap_id (nodes st)) at 2.
    apply list_fmap_ext. intros i node Hi.
    case_decide as Hid; [|done].
    exfalso. apply (Hnone node); [|done].
    by eapply list_elem_of_lookup_2.
Qed.

(** * Node ids *)

(** ** Decimal numerals and the dash of an id *)

Lemma pretty_N_char_noDash (x : N) : pretty_N_char x ≠ "-"%char.
Proof. unfold pretty_N_char. by repeat case_match. Qed.

Lemma pretty_N_go_noDash (x : N) (s : string) :
  noDash s → noDash (pretty_N_go x s).
Proof.
  revert s. induction (N.lt_wf_0 x) as [x _ IH]; intros s Hs.
  destruct (decide (x = 0)%N) as [->|Hx]; [by rewrite pretty_N_go_0|].
  rewrite pretty_N_go_step by lia.
  apply IH; [apply N.div_lt; lia|].
  split; [apply pretty_N_char_noDash|done].
Qed.

Lemma pretty_nat_noDash (n : nat) : noDash (pretty n).
Proof.
  unfold pretty, pretty_nat, pretty, pretty_N.
  case_decide; [by repeat split|]. by apply pretty_N_go_noDash.
Qed.

(** A string is cut at its first dash in one way only. *)
Lemma first_dash_split (s1 s2 r1 r2 : string) :
  noDash s1 → noDash s2 →
  s1 +:+ "-" +:+ r1 = s2 +:+ "-" +:+ r2 →
  s1 = s2 ∧ r1 = r2.
Proof.
  revert s2. induction s1 as [|c1 s1 IH]; intros [|c2 s2]; simpl.
  - intros _ _ Heq. by simplify_eq.
  - intros _ [Hc _] Heq. by simplify_eq.
  - intros [Hc _] _ Heq. by simplify_eq.
  - intros [_ H1] [_ H2] Heq. simplify_eq.
    match goal with H : _ +:+ _ = _ |- _ => apply (IH s2 H1 H2) in H as [-> ->] end.
    done.
Qed.

Lemma one_has_no_dash (s r : string) : "1" ≠ s +:+ "-" +:+ r.
Proof.
  destruct s as [|c [|c' s]]; simpl; intros [= ]; done.
Qed.

Lemma newNodeId_inj (k1 k2 : nat) (t1 t2 : Z) :
  newNodeId k1 t1 = newNodeId k2 t2 → k1 = k2 ∧ t1 = t2.
Proof.
  intros Heq.
  apply first_dash_split in Heq as [Hk Ht]; [|apply pretty_nat_noDash..].
  apply (inj pretty) in Hk. apply (inj pretty) in Ht. lia.
Qed.

Lemma idFrom_mono (T : list Z) (t : Z) (id : string) :
  idFrom T id → idFrom (t :: T) id.
Proof.
  intros [->|(k & t' & Ht' & ->)]; [by left|right].
  exists k, t'. split; [by right|done].
Qed.

Lemma idFrom_fresh (T : list Z) (k : nat) (now : Z) (id : string) :
  now ∉ T → idFrom T id → id ≠ newNodeId k now.
Proof.
  intros Hfresh [->|(k' & t' & Ht' & ->)].
  - apply one_has_no_dash.
  - intros [_ ->]%newNodeId_inj. done.
Qed.

Section NodeIds.
Variable addEdge : Connection.t → list Edge.t → list Edge.t.

Lemma nodes_step_AddNode (st : FlowState)
    (type : string) (position : XYPosition) (now : Z) :
  Node.id <$> nodes (step addEdge st (AddNode type position now))
    = (Node.id <$> nodes st) ++ [newNodeId (length (nodes st)) now].
Proof. unfold step, handle, addNode. simpl. by rewrite fmap_app. Qed.

Lemma nodes_step_RemoveNodes (st : FlowState) (ids : list string) :
  nodes (step addEdge st (RemoveNodes ids))
    = filter (λ node, Node.id node ∉ ids) (nodes st).
Proof. done. Qed.

Lemma ids_step_UpdateNode (st : FlowState)
    (nodeId : string) (newData : gmap string string) :
  Node.id <$> nodes (step addEdge st (UpdateNode nodeId newData))
    = Node.id <$> nodes st.
Proof.
  rewrite nodes_step_UpdateNode, <-list_fmap_compose.
  apply list_fmap_ext. intros i node _. simpl. by case_decide.
Qed.

(** A gesture that reads a timestamp not seen before keeps the ids
    distinct; every other gesture does so anyway. *)
Lemma step_idsOk (T : list Z) (st : FlowState) (ev : Event) :
  idsOk T st →
  (∀ now, timestamp ev = Some now → now ∉ T) →
  idsOk (from_option (λ now, now :: T) T (timestamp ev)) (step addEdge st ev).
Proof.
  intros [Hnd Hshape] Hfresh. unfold idsOk.
  destruct ev as [params|node| |nodeId newData|type position now|ids|];
    cbn [timestamp from_option].
  - rewrite step_Connect. by case_decide.
  - done.
  - done.
  - by rewrite ids_step_UpdateNode.
  - rewrite nodes_step_AddNode.
    specialize (Hfresh now eq_refl). split.
    + apply NoDup_app. split; [done|]. split; [|apply NoDup_singleton].
      intros id Hid ->%list_elem_of_singleton.
      rewrite Forall_forall in Hshape.
      by apply (idFrom_fresh T (length (nodes st)) now _ Hfresh (Hshape _ Hid)).
    + apply Forall_app. split.
      * eapply Forall_impl; [done|]. intros id. apply idFrom_mono.
      * apply Forall_singleton. right.
        exists (length (nodes st)), now. split; [by left|done].
  - rewrite nodes_step_RemoveNodes.
    assert (Node.id <$> filter (λ node, Node.id node ∉ ids) (nodes st)
              `sublist_of` Node.id <$> nodes st) as Hsub
      by apply fmap_sublist, sublist_filter.
    split; [by eapply sublist_NoDup|].
    apply Forall_forall. intros id Hid.
    rewrite Forall_forall in Hshape.
    by eapply Hshape, elem_of_sublist.
  - unfold step, handle. rewrite saveFlow_cases. by case_decide.
Qed.

Lemma run_idsOk (evs : list Event) (T : list Z) (st : FlowState) :
  idsOk T st →
  NoDup (timestamps evs) →
  (∀ now, now ∈ timestamps evs → now ∉ T) →
  idsOk (reverse (timestamps evs) ++ T) (run addEdge st evs).
Proof.
  revert T st. induction evs as [|ev evs IH]; intros T st Hok Hnd Hfresh;
    [done|].
  unfold timestamps in *. simpl in *.
  pose proof (step_idsOk T st ev Hok) as Hstep.
  destruct (timestamp ev) as [now|] eqn:Hev; simpl in *.
  - apply NoDup_cons in Hnd as [Hnow Hnd].
    rewrite reverse_cons, <-app_assoc. simpl.
    apply IH; [|done|].
    + apply Hstep. intros ? [= <-]. apply Hfresh. by left.
    + intros t Ht [->|HT]%elem_of_cons; [done|].
      apply (Hfresh t); [by right|done].
  - apply IH; [|done..]. by apply Hstep.
Qed.

Lemma initialState_idsOk : idsOk [] initialState.
Proof.
  split; simpl.
  - apply NoDup_singleton.
  - apply Forall_singleton. by left.
Qed.
End NodeIds.

(** C8: node ids are meant to be unique, and the id [addNode] builds
    from the length of the list and the clock does not make them so:
    after a removal, an [addNode] that reads the clock value of an earlier
    one at the same list length repeats an id that is still in the
    list. *)
Lemma addNode_repeats_id :
  Node.id <$> nodes (run Examples.addEdge initialState Examples.repeatedClock)
    = ["1"; "3-1700000000500"; "3-1700000000500"]
  ∧ ¬ NoDup (Node.id <$>
               nodes (run Examples.addEdge initialState Examples.repeatedClock)).
Proof.
  assert (Node.id <$>
            nodes (run Examples.addEdge initialState Examples.repeatedClock)
          = ["1"; "3-1700000000500"; "3-1700000000500"]) as Hids
    by (vm_compute; reflexivity).
  split; [done|]. rewrite Hids.
  intros Hnd. apply NoDup_cons in Hnd as [_ Hnd].
  apply NoDup_cons in Hnd as [Hin _]. apply Hin. by left.
Qed.

(** What the id scheme does give: as long as no two [addNode] calls read
    the same value of [Date.now()], the node ids stay pairwise
    distinct. *)
Theorem node_ids_distinct
    (addEdge : Connection.t → list Edge.t → list Edge.t) (evs : list Event) :
  NoDup (timestamps evs) →
  NoDup (Node.id <$> nodes (run addEdge initialState evs)).
Proof.
  intros Hnd.
  apply (run_idsOk addEdge evs [] initialState (initialState_idsOk) Hnd).
  intros now _. apply not_elem_of_nil.
Qed.

Lemma saveFlow_ok_iff_witness :
  saveFlow [Examples.welcome; Examples.message "2-17"; Examples.message "3-18"] []
    = [EToast validationErrorToast].
Proof.
  apply (saveFlow_ok_iff
           [Examples.welcome; Examples.message "2-17"; Examples.message "3-18"] []).
  split; vm_compute; lia.
Defined.

Lemma saveFlow_no_entry_node_witness :
  zeroIncomingCount (nodes Examples.cycle) (edges Examples.cycle) = 0
  ∧ saveFlow (nodes Examples.cycle) (edges Examples.cycle)
      = [EToast flowSavedToast].
Proof.
  apply (saveFlow_no_entry_node (nodes Examples.cycle) (edges Examples.cycle)).
  - simpl. lia.
  - intros n Hn. simpl in Hn.
    apply elem_of_cons in Hn as [->|Hn].
    + exists (Examples.edge "2-1700000000000" "1").
      split; [right; left|reflexivity].
    + apply list_elem_of_singleton in Hn as ->.
      exists (Examples.edge "1" "2-1700000000000").
      split; [left|reflexivity].
Defined.

Lemma onConnect_rejected_unchanged_witness :
  edges (step Examples.addEdge Examples.cycle
           (Connect (Connection.mk "1" HNull "1" HNull)))
    = edges Examples.cycle
  ∧ step Examples.addEdge Examples.cycle
      (Connect (Connection.mk "1" HNull "1" HNull))
    = Examples.cycle.
Proof.
  apply (onConnect_rejected_unchanged Examples.addEdge Examples.cycle
           (Connection.mk "1" HNull "1" HNull)).
  vm_compute. left.
Defined.

Lemma onConnect_rejects_iff_source_taken_witness :
  edges (step Examples.addEdge initialState
           (Connect (Connection.mk "1" HNull "2-17" HNull)))
    = [Examples.edge "1" "2-17"].
Proof.
  apply (onConnect_rejects_iff_source_taken Examples.edgeId initialState
           (Connection.mk "1" HNull "2-17" HNull)).
  vm_compute. discriminate.
Defined.

Lemma onConnect_accepts_self_loop_witness :
  toasts (handle Examples.addEdge initialState
            (Connect (Connection.mk "1" HNull "1" HNull))) = []
  ∧ edges (step Examples.addEdge initialState
             (Connect (Connection.mk "1" HNull "1" HNull)))
      = [Examples.edge "1" "1"].
Proof.
  destruct (onConnect_accepts_self_loop Examples.edgeId initialState
              (Connection.mk "1" HNull "1" HNull)) as (Ht & He & _).
  - reflexivity.
  - intros e He. simpl in He. by apply elem_of_nil in He.
  - split; [exact Ht|exact He].
Defined.

Lemma updateNodeData_frame_witness :
  ∃ node',
    nodes (step Examples.addEdge initialState
             (UpdateNode "1" {[ "text" := "Hello" ]})) !! 0 = Some node'
    ∧ Node.id node' = "1"
    ∧ Node.data node' !! "text" = Some "Hello"
    ∧ Node.data node' !! "label" = Some "Welcome Message".
Proof.
  destruct (updateNodeData_frame Examples.addEdge initialState
              "1" {[ "text" := "Hello" ]}) as (_ & Hat & _).
  destruct (Hat 0 Examples.welcome eq_refl)
    as (node' & Hlook & Hid & _ & _ & Hdata & _).
  exists node'. split; [exact Hlook|]. split; [exact Hid|].
  split; rewrite (Hdata eq_refl); reflexivity.
Defined.

Lemma node_ids_distinct_witness :
  NoDup (Node.id <$> nodes (run Examples.addEdge initialState
           [ AddNode "textNode" (mkXY 0 0) 1700000000000;
             AddNode "textNode" (mkXY 10 10) 1700000000500;
             RemoveNodes ["2-1700000000000"];
             AddNode "textNode" (mkXY 20 20) 1700000000900 ])).
Proof.
  apply (node_ids_distinct Examples.addEdge).
  apply (bool_decide_unpack _). vm_compute. exact I.
Defined.

(** * More on save validation *)

Lemma zeroIncomingCount_le_length (nodes : list Node.t) (edges : list Edge.t) :
  zeroIncomingCount nodes edges ≤ length nodes.
Proof. apply length_filter. Qed.

(** The count only looks at which node ids occur among the targets. *)
Lemma zeroIncomingCount_anti (nodes : list Node.t) (edges edges' : list Edge.t) :
  (∀ n, n ∈ nodes →
        Node.id n ∈ Edge.target <$> edges → Node.id n ∈ Edge.target <$> edges') →
  zeroIncomingCount nodes edges' ≤ zeroIncomingCount nodes edges.
Proof.
  induction nodes as [|n nodes IH]; intros Hsub; [done|].
  rewrite !zeroIncomingCount_cons.
  assert (zeroIncomingCount nodes edges' ≤ zeroIncomingCount nodes edges) as Hle.
  { apply IH. intros m Hm. apply Hsub. by right. }
  pose proof (Hsub n (list_elem_of_here _ _)) as Hn.
  repeat case_decide; try lia. tauto.
Qed.

Lemma zeroIncomingCount_ext (nodes : list Node.t) (edges edges' : list Edge.t) :
  (∀ n, n ∈ nodes →
        Node.id n ∈ Edge.target <$> edges ↔ Node.id n ∈ Edge.target <$> edges') →
  zeroIncomingCount nodes edges = zeroIncomingCount nodes edges'.
Proof.
  intros Hiff. apply Nat.le_antisymm; apply zeroIncomingCount_anti;
    intros n Hn; by apply Hiff.
Qed.

(** X1: drawing more edges never turns a graph that saves into one that
    is rejected. *)
Theorem saveFlow_more_edges (nodes : list Node.t) (edges more : list Edge.t) :
  saveFlow nodes edges = [EToast flowSavedToast] →
  saveFlow nodes (edges ++ more) = [EToast flowSavedToast].
Proof.
  rewrite !saveFlow_cases.
  assert (zeroIncomingCount nodes (edges ++ more) ≤ zeroIncomingCount nodes edges).
  { apply zeroIncomingCount_anti. intros n _. rewrite fmap_app.
    intros Hin. apply elem_of_app. by left. }
  repeat case_decide; try done. lia.
Qed.

Lemma saveFlow_more_edges_witness :
  saveFlow [Examples.welcome; Examples.message "2-17"]
    ([Examples.edge "1" "2-17"] ++ [Examples.edge "2-17" "1"])
  = [EToast flowSavedToast].
Proof.
  apply (saveFlow_more_edges [Examples.welcome; Examples.message "2-17"]
           [Examples.edge "1" "2-17"] [Examples.edge "2-17" "1"]).
  vm_compute. reflexivity.
Defined.

(** X2: the verdict of a save depends on the edges only through the set
    of node ids that occur as a target: edges to ids that no node has,
    repeated edges, the order of the edges and their sources are all
    immaterial. *)
Theorem saveFlow_targets_only (nodes : list Node.t) (edges edges' : list Edge.t) :
  (∀ n, n ∈ nodes →
        Node.id n ∈ Edge.target <$> edges ↔ Node.id n ∈ Edge.target <$> edges') →
  saveFlow nodes edges = saveFlow nodes edges'.
Proof.
  intros Hiff. rewrite !saveFlow_cases.
  by rewrite (zeroIncomingCount_ext nodes edges edges' Hiff).
Qed.

Lemma saveFlow_targets_only_witness :
  saveFlow [Examples.welcome; Examples.message "2-17"]
    [Examples.edge "1" "2-17"; Examples.edge "2-17" "9-99"]
  = saveFlow [Examples.welcome; Examples.message "2-17"]
      [Examples.edge "7-1" "2-17"].
Proof.
  apply saveFlow_targets_only. intros n Hn.
  apply elem_of_cons in Hn as [->|Hn];
    [|apply list_elem_of_singleton in Hn as ->];
    vm_compute; split; intros Hin.
  - apply elem_of_cons in Hin as [Heq|Hin]; [discriminate|].
    apply elem_of_cons in Hin as [Heq|Hin]; [discriminate|].
    by apply elem_of_nil in Hin.
  - apply elem_of_cons in Hin as [Heq|Hin]; [discriminate|].
    by apply elem_of_nil in Hin.
  - left.
  - left.
Defined.

(** X3: the order of the node list does not matter to a save. *)
Theorem saveFlow_Permutation (nodes nodes' : list Node.t) (edges : list Edge.t) :
  nodes ≡ₚ nodes' →
  saveFlow nodes edges = saveFlow nodes' edges.
Proof.
  intros Hperm. rewrite !saveFlow_cases.
  assert (length nodes = length nodes') as -> by by rewrite Hperm.
  assert (zeroIncomingCount nodes edges = zeroIncomingCount nodes' edges) as ->.
  { unfold zeroIncomingCount. by rewrite Hperm. }
  done.
Qed.

Lemma saveFlow_Permutation_witness :
  saveFlow [Examples.welcome; Examples.message "2-17"] [Examples.edge "1" "2-17"]
  = saveFlow [Examples.message "2-17"; Examples.welcome] [Examples.edge "1" "2-17"].
Proof. apply saveFlow_Permutation. apply perm_swap. Defined.

(** Nodes with distinct ids that all occur in a list of targets are no
    more than the targets. *)
Lemma targeted_nodes_le (nodes : list Node.t) (targets : list string) :
  NoDup (Node.id <$> nodes) →
  (∀ n, n ∈ nodes → Node.id n ∈ targets) →
  length nodes ≤ length targets.
Proof.
  intros Hnd Hin. rewrite <-(length_fmap Node.id nodes).
  apply submseteq_length, NoDup_submseteq; [done|].
  intros id (n & -> & Hn)%list_elem_of_fmap. by apply Hin.
Qed.

Lemma length_zeroIncoming_targeted (nodes : list Node.t) (edges : list Edge.t) :
  length nodes =
    zeroIncomingCount nodes edges
    + length (filter (λ n, Node.id n ∈ Edge.target <$> edges) nodes).
Proof.
  induction nodes as [|n nodes IH]; [done|].
  rewrite zeroIncomingCount_cons, filter_cons. simpl.
  case_decide; simpl; lia.
Qed.

(** X4: a graph whose nodes have distinct ids saves only if it has at
    least as many edges as nodes but one. *)
Theorem saveFlow_needs_edges (nodes : list Node.t) (edges : list Edge.t) :
  NoDup (Node.id <$> nodes) →
  saveFlow nodes edges = [EToast flowSavedToast] →
  length nodes ≤ length edges + 1.
Proof.
  intros Hnd. rewrite saveFlow_cases. case_decide as Hok; [|done]. intros _.
  destruct Hok as [Hlen|Hzero]; [lia|].
  pose proof (length_zeroIncoming_targeted nodes edges) as Hsplit.
  assert (length (filter (λ n, Node.id n ∈ Edge.target <$> edges) nodes)
            ≤ length (Edge.target <$> edges)) as Hle.
  { apply targeted_nodes_le.
    - eapply sublist_NoDup; [done|]. apply fmap_sublist, sublist_filter.
    - intros n Hn. by apply list_elem_of_filter in Hn as [? _]. }
  rewrite length_fmap in Hle. lia.
Qed.

Lemma saveFlow_needs_edges_witness :
  length (nodes Examples.cycle) ≤ length (edges Examples.cycle) + 1.
Proof.
  apply saveFlow_needs_edges.
  - apply (bool_decide_unpack _). vm_compute. exact I.
  - vm_compute. reflexivity.
Defined.

(** * The statistics bar *)

Lemma length_filter_impl {A} (P Q : A → Prop)
    `{!∀ x, Decision (P x)} `{!∀ x, Decision (Q x)} (l : list A) :
  (∀ x, x ∈ l → P x → Q x) →
  length (filter P l) ≤ length (filter Q l).
Proof.
  induction l as [|x l IH]; intros Himpl; [done|].
  assert (length (filter P l) ≤ length (filter Q l)) as Hle.
  { apply IH. intros y Hy. apply Himpl. by right. }
  pose proof (Himpl x (list_elem_of_here _ _)) as Hx.
  rewrite !filter_cons. repeat case_decide; simpl; try lia. tauto.
Qed.

Lemma length_filter_all {A} (P : A → Prop) `{!∀ x, Decision (P x)} (l : list A) :
  length (filter P l) = length l ↔ Forall P l.
Proof.
  induction l as [|x l IH]; [by split|].
  rewrite filter_cons, Forall_cons. pose proof (length_filter P l) as Hle.
  case_decide; simpl; split.
  - intros [= Hlen]. split; [done|]. by apply IH.
  - intros [_ Hall]. f_equal. by apply IH.
  - lia.
  - by intros [? _].
Qed.

Lemma isolatedNodes_le_zeroIncoming (nodes : list Node.t) (edges : list Edge.t) :
  isolatedNodes (flowStats nodes edges) ≤ zeroIncomingCount nodes edges.
Proof.
  rewrite <-nodesWithoutTargets_count. simpl.
  apply length_filter_impl. intros n _ Hiso Hex. apply Hiso.
  eapply Exists_impl; [done|]. intros e He. by right.
Qed.

(** X5: when the statistics bar counts more than one isolated node, a
    save is rejected. *)
Theorem isolated_nodes_block_save (nodes : list Node.t) (edges : list Edge.t) :
  1 < isolatedNodes (flowStats nodes edges) →
  saveFlow nodes edges = [EToast validationErrorToast].
Proof.
  intros Hiso.
  pose proof (isolatedNodes_le_zeroIncoming nodes edges) as Hle.
  pose proof (zeroIncomingCount_le_length nodes edges) as Hlen.
  rewrite saveFlow_cases. case_decide; [lia|done].
Qed.

Lemma isolated_nodes_block_save_witness :
  saveFlow
    [Examples.welcome; Examples.message "2-17"; Examples.message "3-18";
     Examples.message "4-19"]
    [Examples.edge "1" "2-17"]
  = [EToast validationErrorToast].
Proof.
  apply isolated_nodes_block_save. vm_compute. lia.
Defined.

(** X6: the isolated count never exceeds the node count, and the two are
    equal exactly when no edge starts or ends at a node of the list; with
    no edges at all every node is isolated. *)
Theorem isolatedNodes_all_iff (nodes : list Node.t) (edges : list Edge.t) :
  isolatedNodes (flowStats nodes edges) ≤ nodeCount (flowStats nodes edges)
  ∧ (isolatedNodes (flowStats nodes edges) = nodeCount (flowStats nodes edges)
     ↔ ∀ n e, n ∈ nodes → e ∈ edges →
              Edge.source e ≠ Node.id n ∧ Edge.target e ≠ Node.id n)
  ∧ isolatedNodes (flowStats nodes []) = nodeCount (flowStats nodes []).
Proof.
  simpl. split; [apply length_filter|]. split.
  - rewrite length_filter_all, Forall_forall. split.
    + intros Hall n e Hn He.
      specialize (Hall n Hn). rewrite <-Forall_Exists_neg, Forall_forall in Hall.
      specialize (Hall e He). tauto.
    + intros Hall n Hn. rewrite <-Forall_Exists_neg, Forall_forall.
      intros e He. destruct (Hall n e Hn He). tauto.
  - apply length_filter_all, Forall_forall. intros n _ Hex.
    by apply Exists_nil in Hex.
Qed.

(** * More on editing a node's data *)

Lemma mergeData_id (node : Node.t) (newData : gmap string string) :
  Node.id (mergeData node newData) = Node.id node.
Proof. done. Qed.

Lemma mergeData_twice (node : Node.t) (d1 d2 : gmap string string) :
  mergeData (mergeData node d1) d2 = mergeData node (d2 ∪ d1).
Proof. unfold mergeData. simpl. by rewrite (assoc_L (∪)). Qed.

Lemma mergeData_idemp (node : Node.t) (d : gmap string string) :
  mergeData (mergeData node d) d = mergeData node d.
Proof. by rewrite mergeData_twice, (idemp_L (∪)). Qed.

Section UpdateNode.
Variable addEdge : Connection.t → list Edge.t → list Edge.t.

(** The state after [updateNodeData], in one piece. *)
Lemma step_UpdateNode
    (st : FlowState) (nodeId : string) (newData : gmap string string) :
  step addEdge st (UpdateNode nodeId newData) =
    mkState
      ((λ node, if decide (Node.id node = nodeId)
                then mergeData node newData else node) <$> nodes st)
      (edges st)
      (if decide (Node.id <$> selectedNode st = Some nodeId)
       then (λ prev, mergeData prev newData) <$> selectedNode st
       else selectedNode st).
Proof.
  unfold step, handle, updateNodeData.
  case_decide; [|done]. simpl. by destruct (selectedNode st).
Qed.

Lemma step_UpdateNode_then
    (st : FlowState) (id1 id2 : string) (d1 d2 : gmap string string) :
  step addEdge (step addEdge st (UpdateNode id1 d1)) (UpdateNode id2 d2) =
    mkState
      ((λ node,
          let node' := if decide (Node.id node = id1)
                       then mergeData node d1 else node in
          if decide (Node.id node = id2) then mergeData node' d2 else node')
       <$> nodes st)
      (edges st)
      ((λ node,
          let node' := if decide (Node.id node = id1)
                       then mergeData node d1 else node in
          if decide (Node.id node = id2) then mergeData node' d2 else node')
       <$> selectedNode st).
Proof.
  rewrite !step_UpdateNode. simpl. f_equal.
  - rewrite <-list_fmap_compose. apply list_fmap_ext. intros i node _. simpl.
    by repeat case_decide.
  - destruct (selectedNode st) as [s|]; simpl; [|by repeat case_decide].
    repeat (case_decide; simplify_eq/=); try done.
Qed.
End UpdateNode.

(** X7: sending the same data to the same node twice is the same as
    sending it once. *)
Theorem updateNodeData_idempotent
    (addEdge : Connection.t → list Edge.t → list Edge.t)
    (st : FlowState) (nodeId : string) (newData : gmap string string) :
  step addEdge (step addEdge st (UpdateNode nodeId newData))
    (UpdateNode nodeId newData)
  = step addEdge st (UpdateNode nodeId newData).
Proof.
  rewrite step_UpdateNode_then, step_UpdateNode. f_equal.
  - apply list_fmap_ext. intros i node _. simpl.
    case_decide; [|done]. apply mergeData_idemp.
  - destruct (selectedNode st) as [s|]; simpl; [|by repeat case_decide].
    repeat (case_decide; simplify_eq/=); try done.
    by rewrite mergeData_idemp.
Qed.

(** X8: two updates of the same node amount to one update with the two
    payloads merged, the later one winning key by key. *)
Theorem updateNodeData_last_wins
    (addEdge : Connection.t → list Edge.t → list Edge.t)
    (st : FlowState) (nodeId : string) (d1 d2 : gmap string string) :
  step addEdge (step addEdge st (UpdateNode nodeId d1)) (UpdateNode nodeId d2)
  = step addEdge st (UpdateNode nodeId (d2 ∪ d1)).
Proof.
  rewrite step_UpdateNode_then, step_UpdateNode. f_equal.
  - apply list_fmap_ext. intros i node _. simpl.
    case_decide; [|done]. apply mergeData_twice.
  - destruct (selectedNode st) as [s|]; simpl; [|by repeat case_decide].
    repeat (case_decide; simplify_eq/=); try done.
    by rewrite mergeData_twice.
Qed.

Lemma nodes_commit_updateNodeData
    (st : FlowState) (captured : option Node.t)
    (nodeId : string) (newData : gmap string string) :
  nodes (commit st (updateNodeData captured nodeId newData)) =
    (λ node, if decide (Node.id node = nodeId)
             then mergeData node newData else node) <$> nodes st.
Proof. unfold updateNodeData. by case_decide. Qed.

Lemma edges_commit_updateNodeData
    (st : FlowState) (captured : option Node.t)
    (nodeId : string) (newData : gmap string string) :
  edges (commit st (updateNodeData captured nodeId newData)) = edges st.
Proof. unfold updateNodeData. by case_decide. Qed.

Lemma selectedNode_commit_updateNodeData
    (st : FlowState) (captured : option Node.t)
    (nodeId : string) (newData : gmap string string) :
  selectedNode (commit st (updateNodeData captured nodeId newData)) =
    if decide (Node.id <$> captured = Some nodeId)
    then (λ prev, mergeData prev newData) <$> selectedNode st
    else selectedNode st.
Proof.
  unfold updateNodeData. case_decide; [|done]. simpl.
  by destruct (selectedNode st).
Qed.

(** X9: on the node list, updates of nodes with different ids can be
    made in either order, whatever selection each callback captured;
    neither order touches the edges. *)
Theorem updateNodeData_commute
    (st : FlowState) (sel1 sel2 sel1' sel2' : option Node.t)
    (id1 id2 : string) (d1 d2 : gmap string string) :
  id1 ≠ id2 →
  nodes (commit (commit st (updateNodeData sel1 id1 d1))
           (updateNodeData sel2 id2 d2))
  = nodes (commit (commit st (updateNodeData sel2' id2 d2))
             (updateNodeData sel1' id1 d1))
  ∧ edges (commit (commit st (updateNodeData sel1 id1 d1))
             (updateNodeData sel2 id2 d2)) = edges st
  ∧ edges (commit (commit st (updateNodeData sel2' id2 d2))
             (updateNodeData sel1' id1 d1)) = edges st.
Proof.
  intros Hne. rewrite !nodes_commit_updateNodeData, !edges_commit_updateNodeData.
  split; [|done].
  rewrite <-!list_fmap_compose. apply list_fmap_ext. intros i node _. simpl.
  destruct (decide (Node.id node = id1)) as [H1|H1],
           (decide (Node.id node = id2)) as [H2|H2]; simpl;
    repeat case_decide; simplify_eq/=; done.
Qed.

Lemma updateNodeData_commute_witness :
  nodes (commit
           (commit (mkState (nodes Examples.cycle) (edges Examples.cycle)
                      (Some Examples.welcome))
              (updateNodeData (Some Examples.welcome) "1" {[ "text" := "Hi" ]}))
           (updateNodeData (Some Examples.welcome) "2-1700000000000"
              {[ "text" := "Bye" ]}))
  = nodes (commit
             (commit (mkState (nodes Examples.cycle) (edges Examples.cycle)
                        (Some Examples.welcome))
                (updateNodeData (Some (Examples.message "2-1700000000000"))
                   "2-1700000000000" {[ "text" := "Bye" ]}))
             (updateNodeData (Some Examples.welcome) "1" {[ "text" := "Hi" ]})).
Proof.
  apply (updateNodeData_commute
           (mkState (nodes Examples.cycle) (edges Examples.cycle)
              (Some Examples.welcome))
           (Some Examples.welcome) (Some Examples.welcome)
           (Some Examples.welcome) (Some (Examples.message "2-1700000000000"))
           "1" "2-1700000000000" {[ "text" := "Hi" ]} {[ "text" := "Bye" ]}).
  discriminate.
Defined.

(** [saveFlow] and [flowStats] see a node only through its id. *)
Lemma length_filter_by_id (P : string → Prop) `{!∀ x, Decision (P x)}
    (l l' : list Node.t) :
  Node.id <$> l = Node.id <$> l' →
  length (filter (λ n, P (Node.id n)) l)
  = length (filter (λ n, P (Node.id n)) l').
Proof.
  revert l'. induction l as [|n l IH]; intros [|n' l'] Heq; try done.
  simpl in Heq. simplify_eq. rewrite !filter_cons.
  match goal with H : Node.id n = Node.id n' |- _ => rewrite H end.
  case_decide; simpl; auto.
Qed.

Lemma saveFlow_ids_only (nodes nodes' : list Node.t) (edges : list Edge.t) :
  Node.id <$> nodes = Node.id <$> nodes' →
  saveFlow nodes edges = saveFlow nodes' edges.
Proof.
  intros Heq. rewrite !saveFlow_cases, <-!nodesWithoutTargets_count.
  assert (length nodes = length nodes') as ->.
  { by rewrite <-(length_fmap Node.id nodes), Heq, length_fmap. }
  pose proof (length_filter_by_id
                (λ id, ¬ Exists (λ edge, Edge.target edge = id) edges)
                nodes nodes' Heq) as Hcount.
  simpl in Hcount. by rewrite Hcount.
Qed.

Lemma flowStats_ids_only (nodes nodes' : list Node.t) (edges : list Edge.t) :
  Node.id <$> nodes = Node.id <$> nodes' →
  flowStats nodes edges = flowStats nodes' edges.
Proof.
  intros Heq. unfold flowStats.
  assert (length nodes = length nodes') as ->.
  { by rewrite <-(length_fmap Node.id nodes), Heq, length_fmap. }
  pose proof (length_filter_by_id
                (λ id, ¬ Exists (λ edge,
                    Edge.source edge = id ∨ Edge.target edge = id) edges)
                nodes nodes' Heq) as Hcount.
  simpl in Hcount. by rewrite Hcount.
Qed.

(** X10: editing a node's data changes neither what a save answers nor
    what the statistics bar shows. *)
Theorem updateNodeData_keeps_verdict
    (addEdge : Connection.t → list Edge.t → list Edge.t)
    (st : FlowState) (nodeId : string) (newData : gmap string string) :
  handle addEdge (step addEdge st (UpdateNode nodeId newData)) Save
    = handle addEdge st Save
  ∧ flowStats (nodes (step addEdge st (UpdateNode nodeId newData)))
              (edges (step addEdge st (UpdateNode nodeId newData)))
    = flowStats (nodes st) (edges st).
Proof.
  pose proof (ids_step_UpdateNode addEdge st nodeId newData) as Hids.
  pose proof (edges_step_UpdateNode addEdge st nodeId newData) as Hedges.
  simpl. rewrite Hedges. split.
  - by apply saveFlow_ids_only.
  - by apply flowStats_ids_only.
Qed.

(** X11: when the selected node is the node at some position of the
    list and the callback that runs captured a selection with the same
    id, the selected node is still the node at that position after
    [updateNodeData], whichever node the update was for. *)
Theorem updateNodeData_selection_in_sync
    (st : FlowState) (captured : option Node.t)
    (nodeId : string) (newData : gmap string string) (i : nat) :
  is_Some (selectedNode st) →
  nodes st !! i = selectedNode st →
  Node.id <$> captured = Node.id <$> selectedNode st →
  nodes (commit st (updateNodeData captured nodeId newData)) !! i
    = selectedNode (commit st (updateNodeData captured nodeId newData)).
Proof.
  intros [s Hs] Hi Hcap.
  rewrite nodes_commit_updateNodeData, selectedNode_commit_updateNodeData.
  rewrite list_lookup_fmap, Hi, Hcap, Hs. simpl.
  repeat (case_decide; simplify_eq/=); done.
Qed.

Lemma updateNodeData_selection_in_sync_witness :
  nodes (commit (mkState initialNodes [] (Some Examples.welcome))
           (updateNodeData (Some (Examples.message "1")) "1"
              {[ "label" := "Start" ]})) !! 0
  = selectedNode (commit (mkState initialNodes [] (Some Examples.welcome))
                    (updateNodeData (Some (Examples.message "1")) "1"
                       {[ "label" := "Start" ]})).
Proof.
  apply (updateNodeData_selection_in_sync
           (mkState initialNodes [] (Some Examples.welcome))
           (Some (Examples.message "1")) "1" {[ "label" := "Start" ]} 0).
  - simpl. by exists Examples.welcome.
  - reflexivity.
  - reflexivity.
Defined.

(** * Connections, continued *)

(** X12: whether a proposal is rejected depends on its source node and
    source handle only; the target end plays no part. *)
Theorem onConnect_ignores_target
    (addEdge : Connection.t → list Edge.t → list Edge.t)
    (st : FlowState) (params params' : Connection.t) :
  Connection.source params = Connection.source params' →
  Connection.sourceHandle params = Connection.sourceHandle params' →
  toasts (handle addEdge st (Connect params))
    = toasts (handle addEdge st (Connect params')).
Proof.
  intros Hs Hh. simpl. rewrite !onConnect_cases.
  assert (Exists (sameSource params) (edges st)
            ↔ Exists (sameSource params') (edges st)) as Hiff.
  { unfold sameSource. by rewrite Hs, Hh. }
  repeat case_decide; try done; tauto.
Qed.

Lemma onConnect_ignores_target_witness :
  toasts (handle Examples.addEdge Examples.cycle
            (Connect (Connection.mk "1" HNull "1" HNull)))
  = toasts (handle Examples.addEdge Examples.cycle
              (Connect (Connection.mk "1" HNull "2-1700000000000" (HId "b")))).
Proof. by apply onConnect_ignores_target. Defined.

(** * Editing inside a text node *)

(** X13: on a node list with distinct ids, saving an inline edit changes
    the list exactly as [updateNodeData] does for the payload that holds
    the new text alone; it leaves the edges and the selected node as they
    are. *)
Theorem handleSave_as_update
    (st : FlowState) (captured : option Node.t)
    (id : string) (s : TextNode.State) :
  NoDup (Node.id <$> nodes st) →
  nodes (commit st (TextNode.handleSave id s).2)
    = nodes (commit st
               (updateNodeData captured id {[ "text" := TextNode.editText s ]}))
  ∧ edges (commit st (TextNode.handleSave id s).2) = edges st
  ∧ selectedNode (commit st (TextNode.handleSave id s).2) = selectedNode st.
Proof.
  intros _. rewrite nodes_commit_updateNodeData. simpl. split; [|done].
  apply list_fmap_ext. intros i node _. simpl.
  case_decide; [|done]. unfold mergeData. f_equal.
  apply insert_union_singleton_l.
Qed.

Lemma handleSave_as_update_witness :
  nodes (commit Examples.cycle
           (TextNode.handleSave "1" (TextNode.mkLocal true "Hello")).2)
  = nodes (commit Examples.cycle
             (updateNodeData None "1" {[ "text" := "Hello" ]})).
Proof.
  apply (handleSave_as_update Examples.cycle None "1"
           (TextNode.mkLocal true "Hello")).
  apply (bool_decide_unpack _). vm_compute. exact I.
Defined.

(** X14: an inline edit that changes the text of the selected node leaves
    the selected copy behind: afterwards every node of the list with that
    id carries the new text and differs from the copy. *)
Theorem handleSave_selection_stale
    (st : FlowState) (s : TextNode.State) (sel : Node.t) :
  selectedNode st = Some sel →
  Node.data sel !! "text" ≠ Some (TextNode.editText s) →
  selectedNode (commit st (TextNode.handleSave (Node.id sel) s).2) = Some sel
  ∧ ∀ i node,
      nodes (commit st (TextNode.handleSave (Node.id sel) s).2) !! i = Some node →
      Node.id node = Node.id sel →
      Node.data node !! "text" = Some (TextNode.editText s) ∧ node ≠ sel.
Proof.
  intros Hsel Htext. simpl. split; [done|].
  intros i node Hi Hid. rewrite list_lookup_fmap in Hi.
  destruct (nodes st !! i) as [n|]; [|done]. simpl in Hi.
  case_decide as Hn; simplify_eq/=.
  assert (<["text":=TextNode.editText s]> (Node.data n) !! "text"
            = Some (TextNode.editText s)) as Hnew by apply lookup_insert_eq.
  split; [done|]. intros <-. simpl in Htext. by rewrite Hnew in Htext.
Qed.

Lemma handleSave_selection_stale_witness :
  selectedNode
    (commit (mkState initialNodes [] (Some Examples.welcome))
       (TextNode.handleSave "1" (TextNode.mkLocal true "Hello")).2)
  = Some Examples.welcome
  ∧ ∀ i node,
      nodes (commit (mkState initialNodes [] (Some Examples.welcome))
               (TextNode.handleSave "1" (TextNode.mkLocal true "Hello")).2) !! i
        = Some node →
      Node.id node = "1" →
      Node.data node !! "text" = Some "Hello" ∧ node ≠ Examples.welcome.
Proof.
  apply (handleSave_selection_stale
           (mkState initialNodes [] (Some Examples.welcome))
           (TextNode.mkLocal true "Hello") Examples.welcome).
  - reflexivity.
  - vm_compute. discriminate.
Defined.

(** X15: a key press writes to the flow only when it is Enter with the
    control key held.  Escape closes the editor and puts the node's text
    back into the field; any other key leaves the editor as it is. *)
Theorem handleKeyPress_writes_only_on_ctrl_enter
    (st : FlowState) (id : string) (data : gmap string string)
    (e : TextNode.KeyboardEvent) (s : TextNode.State) :
  ¬ (TextNode.key e = "Enter" ∧ TextNode.ctrlKey e = true) →
  commit st (TextNode.handleKeyPress id data e s).2 = st
  ∧ (TextNode.key e = "Escape" →
     (TextNode.handleKeyPress id data e s).1
       = TextNode.mkLocal false (TextNode.textOrEmpty data))
  ∧ (TextNode.key e ≠ "Escape" →
     (TextNode.handleKeyPress id data e s).1 = s).
Proof.
  intros Hne. unfold TextNode.handleKeyPress.
  case_decide; [done|]. case_decide; simpl; by repeat split.
Qed.

Lemma handleKeyPress_writes_only_on_ctrl_enter_witness :
  commit initialState
    (TextNode.handleKeyPress "1" (Node.data Examples.welcome)
       (TextNode.mkKey "Enter" false) (TextNode.mkLocal true "Hel")).2
  = initialState.
Proof.
  apply (handleKeyPress_writes_only_on_ctrl_enter initialState "1"
           (Node.data Examples.welcome) (TextNode.mkKey "Enter" false)
           (TextNode.mkLocal true "Hel")).
  simpl. intros [_ Hctrl]. discriminate.
Defined.

(** X16: open the editor with a double click, type a text, press
    Ctrl+Enter: the editor is closed, the node reads back the typed text
    and keeps its label. *)
Theorem edit_session_commits
    (st : FlowState) (s : TextNode.State) (v : string)
    (i : nat) (node : Node.t) :
  nodes st !! i = Some node →
  let opened := (TextNode.handleDoubleClick (Node.data node) s).1 in
  let typed := (TextNode.onChange v opened).1 in
  let saved := TextNode.handleKeyPress (Node.id node) (Node.data node)
                 (TextNode.mkKey "Enter" true) typed in
  saved.1 = TextNode.mkLocal false v
  ∧ ∃ node', nodes (commit st saved.2) !! i = Some node'
      ∧ Node.id node' = Node.id node
      ∧ Node.data node' !! "text" = Some v
      ∧ Node.data node' !! "label" = Node.data node !! "label".
Proof.
  intros Hi. simpl. split; [done|].
  rewrite list_lookup_fmap, Hi. simpl. case_decide; [|done].
  eexists. split; [done|]. simpl. split; [done|]. split.
  - apply lookup_insert_eq.
  - by apply lookup_insert_ne.
Qed.

Lemma edit_session_commits_witness :
  ∃ node',
    nodes (commit initialState
             (TextNode.handleKeyPress "1" (Node.data Examples.welcome)
                (TextNode.mkKey "Enter" true)
                (TextNode.mkLocal true "Hello")).2) !! 0 = Some node'
    ∧ Node.data node' !! "text" = Some "Hello"
    ∧ Node.data node' !! "label" = Some "Welcome Message".
Proof.
  destruct (edit_session_commits initialState (TextNode.mkLocal false "")
              "Hello" 0 Examples.welcome eq_refl)
    as (_ & node' & Hlook & _ & Htext & Hlabel).
  exists node'. split; [exact Hlook|]. split; [exact Htext|].
  rewrite Hlabel. reflexivity.
Defined.

(** * What a text node shows *)

Lemma string_length_app (s1 s2 : string) :
  String.length (s1 +:+ s2) = String.length s1 + String.length s2.
Proof. induction s1 as [|c s1 IH]; simpl; [done|]. by rewrite IH. Qed.

Lemma length_substring_le (n m : nat) (s : string) :
  String.length (String.substring n m s) ≤ m.
Proof.
  revert n m. induction s as [|c s IH]; intros [|n] [|m]; simpl; try lia.
  - specialize (IH 0 m). lia.
  - apply (IH n 0).
  - apply (IH n (S m)).
Qed.

Lemma length_substring_0 (m : nat) (s : string) :
  m ≤ String.length s → String.length (String.substring 0 m s) = m.
Proof.
  revert m. induction s as [|c s IH]; intros [|m]; simpl; try lia.
  intros Hm. rewrite IH; lia.
Qed.

(** X17: the body of a node never shows more than 103 characters. *)
Theorem bodyText_bounded (data : gmap string string) :
  String.length (TextNode.bodyText data) ≤ 103.
Proof.
  unfold TextNode.bodyText.
  destruct (data !! "text") as [text|]; [|simpl; lia].
  case_decide; [simpl; lia|]. case_decide; [|lia].
  rewrite string_length_app.
  pose proof (length_substring_le 0 100 text). simpl. lia.
Qed.

(** X18: a non-empty text of at most a hundred characters is shown as it
    is; a longer one is shown as its first hundred characters followed by
    three dots. *)
Theorem bodyText_shows_text (data : gmap string string) (text : string) :
  data !! "text" = Some text →
  text ≠ "" →
  (String.length text ≤ 100 → TextNode.bodyText data = text)
  ∧ (100 < String.length text →
     String.length (TextNode.bodyText data) = 103
     ∧ ∀ i, i < 100 →
            String.get i (TextNode.bodyText data) = String.get i text).
Proof.
  intros Hdata Hne. unfold TextNode.bodyText. rewrite Hdata.
  case_decide; [done|]. case_decide; (split; [lia || done|]); [|lia].
  intros _.
  assert (String.length (String.substring 0 100 text) = 100) as Hlen
    by (apply length_substring_0; lia).
  split.
  - rewrite string_length_app, Hlen. reflexivity.
  - intros i Hi.
    rewrite <-(String.append_correct1 (String.substring 0 100 text) "..." i)
      by (rewrite Hlen; exact Hi).
    rewrite (String.substring_correct1 text 0 100 i Hi). f_equal. lia.
Qed.

Lemma bodyText_shows_text_witness :
  TextNode.bodyText (Node.data Examples.welcome)
    = "Welcome! Start building your chatbot flow.".
Proof.
  apply (bodyText_shows_text (Node.data Examples.welcome)
           "Welcome! Start building your chatbot flow.").
  - reflexivity.
  - discriminate.
  - simpl. lia.
Defined.

(** * Dropping a palette entry on the canvas *)

Lemma commit_onDrop (st : FlowState) (now : Z) (event : DropEvent) :
  commit st (onDrop (length (nodes st)) now event) =
    if decide (getData "application/reactflow" (dataTransfer event) = "")
    then st
    else mkState
           (nodes st ++
            [Node.mk (newNodeId (length (nodes st)) now)
               (getData "application/reactflow" (dataTransfer event))
               (mkXY (clientX event - bounds_left event)
                     (clientY event - bounds_top event))
               {[ "text" :=
                    if decide (getData "application/reactflow"
                                 (dataTransfer event) = "textNode")
                    then "Click to edit this message..." else "";
                  "label" :=
                    if decide (getData "application/reactflow"
                                 (dataTransfer event) = "textNode")
                    then "Message" else "Node" ]}])
           (edges st) (selectedNode st).
Proof.
  unfold onDrop. case_decide; [done|]. reflexivity.
Qed.

(** X19: a drop changes the state exactly when the drag carries a
    non-empty node type; a drop without one adds nothing. *)
Theorem onDrop_noop_iff (st : FlowState) (now : Z) (event : DropEvent) :
  commit st (onDrop (length (nodes st)) now event) = st
  ↔ getData "application/reactflow" (dataTransfer event) = "".
Proof.
  rewrite commit_onDrop. case_decide as Htype; [done|].
  split; [|done]. intros Heq.
  apply (f_equal (λ st, length (nodes st))) in Heq.
  simpl in Heq. rewrite length_app in Heq. simpl in Heq. lia.
Qed.

(** X20: what [onDragStart] stores is what [onDrop] reads: dragging an
    entry of a non-empty type and dropping it appends one node of that
    type, placed at the pointer relative to the canvas corner, and keeps
    the nodes that were there, the edges and the selection. *)
Theorem drag_then_drop
    (st : FlowState) (dt : DataTransfer) (nodeType : string) (now : Z)
    (cx cy left top : Z) :
  nodeType ≠ "" →
  ∃ node,
    commit st
      (onDrop (length (nodes st)) now
         (mkDropEvent (onDragOver (onDragStart dt nodeType)) cx cy left top))
    = mkState (nodes st ++ [node]) (edges st) (selectedNode st)
    ∧ Node.type node = nodeType
    ∧ Node.id node = newNodeId (length (nodes st)) now
    ∧ Node.position node = mkXY (cx - left) (cy - top).
Proof.
  intros Hne. rewrite commit_onDrop.
  assert (getData "application/reactflow"
            (dataTransfer
               (mkDropEvent (onDragOver (onDragStart dt nodeType))
                  cx cy left top)) = nodeType) as ->.
  { unfold getData, onDragOver, onDragStart, setData. simpl.
    by rewrite lookup_insert_eq. }
  case_decide; [done|]. eexists. by repeat split.
Qed.

Lemma drag_then_drop_witness :
  ∃ node,
    commit initialState
      (onDrop 1 1700000000000
         (mkDropEvent
            (onDragOver (onDragStart (mkDataTransfer ∅ "none" "none") "textNode"))
            420 310 20 10))
    = mkState (initialNodes ++ [node]) [] None
    ∧ Node.type node = "textNode"
    ∧ Node.id node = "2-1700000000000"
    ∧ Node.position node = mkXY 400 300.
Proof.
  destruct (drag_then_drop initialState (mkDataTransfer ∅ "none" "none")
              "textNode" 1700000000000 420 310 20 10)
    as (node & Hst & Htype & Hid & Hpos); [discriminate|].
  exists node. split; [exact Hst|]. split; [exact Htype|].
  split; [exact Hid|exact Hpos].
Defined.

Lemma isolatedNodes_all_iff_witness :
  isolatedNodes (flowStats [Examples.welcome; Examples.message "2-17"]
                   [Examples.edge "8-1" "9-2"])
  = nodeCount (flowStats [Examples.welcome; Examples.message "2-17"]
                 [Examples.edge "8-1" "9-2"]).
Proof.
  destruct (isolatedNodes_all_iff [Examples.welcome; Examples.message "2-17"]
              [Examples.edge "8-1" "9-2"]) as (_ & Hiff & _).
  apply Hiff. intros n e Hn He. apply list_elem_of_singleton in He as ->.
  apply elem_of_cons in Hn as [->|Hn];
    [|apply list_elem_of_singleton in Hn as ->]; by split.
Defined.

Lemma onDrop_noop_iff_witness :
  commit initialState
    (onDrop (length (nodes initialState)) 1700000000000
       (mkDropEvent (mkDataTransfer ∅ "none" "none") 420 310 20 10))
  = initialState.
Proof. apply onDrop_noop_iff. reflexivity. Defined.

(** * A node fresh from [addNode] *)

(** X21: a text node that [addNode] has just appended does not render
    blank: its header reads Message and its body shows the default
    message. *)
Theorem addNode_renders
    (st : FlowState) (now : Z) (type : string) (position : XYPosition) :
  type = "textNode" →
  ∃ node,
    nodes (commit st (addNode (length (nodes st)) now type position))
      = nodes st ++ [node]
    ∧ Node.type node = "textNode"
    ∧ TextNode.headerLabel (Node.data node) = "Message"
    ∧ TextNode.bodyText (Node.data node) = "Click to edit this message...".
Proof.
  intros ->. eexists. split; [reflexivity|]. simpl. split; [done|].
  unfold TextNode.headerLabel, TextNode.bodyText. simpl.
  rewrite lookup_insert_ne by done. rewrite !lookup_insert_eq.
  by split.
Qed.

Lemma addNode_renders_witness :
  ∃ node,
    nodes (commit initialState
             (addNode 1 1700000000000 "textNode" (mkXY 400 300)))
      = initialNodes ++ [node]
    ∧ TextNode.headerLabel (Node.data node) = "Message"
    ∧ TextNode.bodyText (Node.data node) = "Click to edit this message...".
Proof.
  destruct (addNode_renders initialState 1700000000000 "textNode"
              (mkXY 400 300) eq_refl) as (node & Hnodes & _ & Hh & Hb).
  exists node. split; [exact Hnodes|]. split; [exact Hh|exact Hb].
Defined.
